(** * Verification of the hitman request runner

    Shallow embedding of the parts of [src/main.rs] and [src/ui/app.rs]
    that drive placeholder resolution, request execution, extraction and
    the watch loop.  Library collaborators (the [toml] crate's [Display],
    the HTTP transport, the terminal widgets) are kept abstract as Section
    variables; repository modules that are not part of [src/]
    ([substitute], [prompt], [request]) are modelled from the spec and
    marked so. *)

From Stdlib Require Import String Ascii List Bool Arith Lia.
Import ListNotations.
Open Scope string_scope.
Open Scope list_scope.
Set Warnings "-register-all".

(** ** Results, TOML values and tables *)

Inductive result (A E : Type) : Type :=
| Ok : A -> result A E
| Err : E -> result A E.
Arguments Ok {A E} _.
Arguments Err {A E} _.

(** [toml::Value]; datetimes and floats are kept as opaque scalars. *)
Inductive Value : Type :=
| VString : string -> Value
| VInteger : nat -> Value
| VBoolean : bool -> Value
| VOtherScalar : string -> Value
| VArray : list Value -> Value
| VTable : list (string * Value) -> Value.

(** [toml::Table] (a map with unique keys), read through [get]. *)
Definition Table := list (string * Value).

Fixpoint get (t : Table) (k : string) : option Value :=
  match t with
  | [] => None
  | (k', v) :: rest => if String.eqb k k' then Some v else get rest k
  end.

(** ** Placeholder substitution

    Modelled from the spec: the [substitute] module of the crate is not
    part of [src/]; this follows spec section 4.2.  A template is scanned
    left to right for [{{name}}] and [{{name:-fallback}}] spans; the first
    placeholder that does not resolve to a scalar stops the scan. *)

Inductive Seg : Type :=
| Lit : string -> Seg
| Ph : string -> option string -> Seg.

Definition lit_seg (acc : string) : list Seg :=
  match acc with EmptyString => [] | _ => [Lit acc] end.

(** Split the inside of a placeholder at the first [":-"]. *)
Fixpoint split_fallback (s : string) : string * option string :=
  match s with
  | EmptyString => (EmptyString, None)
  | String c rest =>
      match rest with
      | String c2 rest2 =>
          if Ascii.eqb c ":" && Ascii.eqb c2 "-" then (EmptyString, Some rest2)
          else let '(n, fb) := split_fallback rest in (String c n, fb)
      | EmptyString => (String c EmptyString, None)
      end
  end.

Definition placeholder (inner : string) : Seg :=
  let '(n, fb) := split_fallback inner in Ph n fb.

Fixpoint scan (in_ph : bool) (acc : string) (s : string) {struct s} : list Seg :=
  match s with
  | EmptyString => if in_ph then [Lit ("{{" ++ acc)%string] else lit_seg acc
  | String c rest =>
      match rest with
      | String c2 rest2 =>
          if negb in_ph && Ascii.eqb c "{" && Ascii.eqb c2 "{" then
            lit_seg acc ++ scan true EmptyString rest2
          else if in_ph && Ascii.eqb c "}" && Ascii.eqb c2 "}" then
            placeholder acc :: scan false EmptyString rest2
          else scan in_ph (acc ++ String c EmptyString)%string rest
      | EmptyString => scan in_ph (acc ++ String c EmptyString)%string rest
      end
  end.

Definition tokenize (template : string) : list Seg := scan false EmptyString template.

(** [SubstituteError]. *)
Inductive SubstituteError : Type :=
| ValueNotFound : string -> option string -> SubstituteError
| MultipleValuesFound : string -> list Value -> SubstituteError
| UnsupportedValue : string -> SubstituteError.

Section Substitute.
  (** [Display] of [toml::Value] (library code). *)
  Variable value_to_string : Value -> string.

Definition scalar_text (v : Value) : string :=
    match v with
    | VString s => s
    | other => value_to_string other
    end.

Fixpoint substitute_segs (segs : list Seg) (env : Table)
    : result string SubstituteError :=
    match segs with
    | [] => Ok EmptyString
    | Lit s :: rest =>
        match substitute_segs rest env with
        | Ok out => Ok (s ++ out)%string
        | Err e => Err e
        end
    | Ph n fb :: rest =>
        match get env n with
        | None => Err (ValueNotFound n fb)
        | Some (VArray vs) => Err (MultipleValuesFound n vs)
        | Some (VTable _) => Err (UnsupportedValue n)
        | Some v =>
            match substitute_segs rest env with
            | Ok out => Ok (scalar_text v ++ out)%string
            | Err e => Err e
            end
        end
    end.

Definition substitute (template : string) (env : Table)
    : result string SubstituteError :=
    substitute_segs (tokenize template) env.

  (** A segment that [substitute_segs] passes over without failing. *)
Definition seg_scalar (env : Table) (sg : Seg) : bool :=
    match sg with
    | Lit _ => true
    | Ph n _ =>
        match get env n with
        | Some (VString _) | Some (VInteger _) | Some (VBoolean _)
        | Some (VOtherScalar _) => true
        | _ => false
        end
    end.
End Substitute.

(** ** The full-screen front-end ([src/ui/app.rs]) *)

Module Ui.

(** [PendingState] *)
Inductive PendingState : Type :=
| PPrompt : option string -> PendingState
| PSelect : list Value -> PendingState.

(** [AppState]; a [JoinHandle] is represented by the task's id, the
    [Select<String>] of [SelectTarget] by its items. *)
Inductive AppState : Type :=
| Idle : AppState
| PendingValue : string -> string -> list (string * string) -> PendingState -> AppState
| RunningRequest : nat -> AppState
| SelectTarget : list string -> AppState.

(** [AskForValueParams] *)
Inductive AskForValueParams : Type :=
| AskPrompt : option string -> AskForValueParams
| AskSelect : list Value -> AskForValueParams.

(** [Intent]; [SelectTargetI] is the unit variant [Intent::SelectTarget]. *)
Inductive Intent : Type :=
| Quit : Intent
| PrepareRequest : string -> list (string * string) -> Intent
| SendRequest : string -> string -> Intent
| AskForValue : string -> string -> list (string * string) -> AskForValueParams -> Intent
| ChangeState : AppState -> Intent
| SelectTargetI : Intent
| AcceptSelectTarget : string -> Intent
| EditRequest : Intent
| ShowError : string -> Intent.

(** What the widgets report for one terminal event: [mapkey], and the
    intent of whichever select or prompt component is active (a select
    accepts the item at an index of its list). *)
Inductive KeyMapping : Type := KEditor | KAbort | KSelectTarget | KOther.
Inductive SelectIntent : Type := SAbort | SAccept : nat -> SelectIntent.
Inductive PromptIntent : Type := PAbort | PAccept : string -> PromptIntent.

Record Event : Type := mkEvent {
  ev_press : bool;
  ev_key : KeyMapping;
  ev_select : option SelectIntent;
  ev_prompt : option PromptIntent
}.

(** Library and filesystem collaborators of [app.rs]. *)
Record Externals (Store Response Json : Type) : Type := mkExternals {
  value_to_string : Value -> string;
  table_to_string : Table -> string;
  subst_error_message : SubstituteError -> string;
  read_to_string : string -> result string string;
  load_env : Store -> string -> string -> list (string * string) -> result Table string;
  find_environments : result (list string) string;
  set_target : string -> result unit string;
  edit_request : result unit string;
  build_client : result unit string;
  do_request : string -> result Response string;
  headers_to_str : Response -> result unit string;
  decode_json : Response -> option Json;
  to_string_pretty : Json -> result string string;
  extract_variables : Json -> Table -> result (list (string * Value)) string;
  update_data : list (string * Value) -> Store -> result Store string
}.
Arguments value_to_string {_ _ _}. Arguments table_to_string {_ _ _}.
Arguments subst_error_message {_ _ _}. Arguments read_to_string {_ _ _}.
Arguments load_env {_ _ _}. Arguments find_environments {_ _ _}.
Arguments set_target {_ _ _}. Arguments edit_request {_ _ _}.
Arguments build_client {_ _ _}. Arguments do_request {_ _ _}.
Arguments headers_to_str {_ _ _}. Arguments decode_json {_ _ _}.
Arguments to_string_pretty {_ _ _}. Arguments extract_variables {_ _ _}.
Arguments update_data {_ _ _}.

Section App.
  Context {Store Response Json : Type}.
  Variable X : Externals Store Response Json.
  Variable root_dir : string.

  (** The spawned [make_request] future, suspended at its [.await]s. *)
Inductive Task : Type :=
  | TStart : string -> string -> Task
  | TAwaitTransport : string -> string -> Task
  | TAwaitJson : Response -> string -> Task
  | TDone : result unit string -> Task.

Definition task_done (t : Task) : bool :=
    match t with TDone _ => true | _ => false end.

  (** One poll of [make_request buf root_dir file_path]: the new task, the
      persisted store, and whether the extraction block (environment
      reload, [extract_variables], [update_data]) was entered. *)
Definition step_task (t : Task) (s : Store) : Task * Store * bool :=
    match t with
    | TStart buf fp =>
        match build_client X with
        | Err e => (TDone (Err e), s, false)
        | Ok _ => (TAwaitTransport buf fp, s, false)
        end
    | TAwaitTransport buf fp =>
        match do_request X buf with
        | Err e => (TDone (Err e), s, false)
        | Ok res =>
            match headers_to_str X res with
            | Err e => (TDone (Err e), s, false)
            | Ok _ => (TAwaitJson res fp, s, false)
            end
        end
    | TAwaitJson res fp =>
        match decode_json X res with
        | None => (TDone (Ok tt), s, false)
        | Some json =>
            match to_string_pretty X json with
            | Err e => (TDone (Err e), s, false)
            | Ok _ =>
                match load_env X s root_dir fp [] with
                | Err e => (TDone (Err e), s, true)
                | Ok env =>
                    match extract_variables X json env with
                    | Err e => (TDone (Err e), s, true)
                    | Ok vars =>
                        match update_data X vars s with
                        | Err e => (TDone (Err e), s, true)
                        | Ok s' => (TDone (Ok tt), s', true)
                        end
                    end
                end
            end
        end
    | TDone r => (TDone r, s, false)
    end.

  (** [App], with the runtime's view of the spawned tasks: [live] are the
      tasks neither finished-and-collected nor aborted, [extracted] the tasks
      that entered their extraction block, [aborted] the aborted tasks with the point
      they had reached. *)
Record App : Type := mkApp {
    state : AppState;
    error : option string;
    should_quit : bool;
    target : string;
    reqs : list string;
    live : list (nat * Task);
    next_handle : nat;
    store : Store;
    extracted : list nat;
    aborted : list (nat * Task)
  }.

Definition app_new (target0 : string) (reqs0 : list string) (s0 : Store) : App :=
    mkApp Idle None false target0 reqs0 [] 0 s0 [] [].

Definition set_state (a : App) (st : AppState) : App :=
    mkApp st (error a) (should_quit a) (target a) (reqs a) (live a)
      (next_handle a) (store a) (extracted a) (aborted a).
Definition set_error (a : App) (e : option string) : App :=
    mkApp (state a) e (should_quit a) (target a) (reqs a) (live a)
      (next_handle a) (store a) (extracted a) (aborted a).
Definition set_quit (a : App) : App :=
    mkApp (state a) (error a) true (target a) (reqs a) (live a)
      (next_handle a) (store a) (extracted a) (aborted a).
Definition set_target_name (a : App) (t : string) : App :=
    mkApp (state a) (error a) (should_quit a) t (reqs a) (live a)
      (next_handle a) (store a) (extracted a) (aborted a).

Fixpoint lookup_task (h : nat) (l : list (nat * Task)) : option Task :=
    match l with
    | [] => None
    | (h', t) :: rest => if Nat.eqb h h' then Some t else lookup_task h rest
    end.

Definition remove_task (h : nat) (l : list (nat * Task)) : list (nat * Task) :=
    filter (fun p => negb (Nat.eqb h (fst p))) l.

Definition update_task (h : nat) (t : Task) (l : list (nat * Task)) : list (nat * Task) :=
    map (fun p => if Nat.eqb h (fst p) then (h, t) else p) l.

  (** The tokio runtime polls task [h] once. *)
Definition poll_task (h : nat) (a : App) : App :=
    match lookup_task h (live a) with
    | None => a
    | Some t =>
        let '(t', s', wrote) := step_task t (store a) in
        mkApp (state a) (error a) (should_quit a) (target a) (reqs a)
          (update_task h t' (live a)) (next_handle a) s'
          (if wrote then h :: extracted a else extracted a) (aborted a)
    end.

  (** [handle.abort()]: the task is dropped at its current suspension point. *)
Definition abort_handle (h : nat) (a : App) : App :=
    mkApp (state a) (error a) (should_quit a) (target a) (reqs a)
      (remove_task h (live a)) (next_handle a) (store a) (extracted a)
      (match lookup_task h (live a) with
       | Some t => (h, t) :: aborted a
       | None => aborted a
       end).

  (** [App::try_request] *)
Definition try_request (a : App) (file_path : string) (options : list (string * string))
    : result (option Intent) string :=
    match load_env X (store a) root_dir file_path options with
    | Err e => Err e
    | Ok env =>
        match read_to_string X file_path with
        | Err e => Err e
        | Ok template =>
            Ok (Some
              match substitute (value_to_string X) template env with
              | Ok prepared_request => SendRequest file_path prepared_request
              | Err (MultipleValuesFound key values) =>
                  AskForValue key file_path options (AskSelect values)
              | Err (ValueNotFound key fallback) =>
                  AskForValue key file_path options (AskPrompt fallback)
              | Err other_err => ShowError (subst_error_message X other_err)
              end)
        end
    end.

  (** [App::send_request]: spawn [make_request] and enter [RunningRequest]. *)
Definition send_request (a : App) (file_path prepared_request : string)
    : App * option Intent :=
    let h := next_handle a in
    (mkApp (state a) (error a) (should_quit a) (target a) (reqs a)
       ((h, TStart prepared_request file_path) :: live a) (S h) (store a)
       (extracted a) (aborted a),
     Some (ChangeState (RunningRequest h))).

  (** [App::dispatch] *)
Definition dispatch (intent : Intent) (a : App) : result (App * option Intent) string :=
    match intent with
    | Quit => Ok (set_quit a, None)
    | ChangeState st => Ok (set_state (set_error a None) st, None)
    | PrepareRequest file_path options =>
        match try_request a file_path options with
        | Ok i => Ok (a, i)
        | Err e => Err e
        end
    | SendRequest file_path prepared_request =>
        Ok (send_request a file_path prepared_request)
    | AskForValue key file_path pending_options params =>
        let pending_state :=
          match params with
          | AskSelect values => PSelect values
          | AskPrompt fallback => PPrompt fallback
          end in
        Ok (a, Some (ChangeState (PendingValue file_path key pending_options pending_state)))
    | SelectTargetI =>
        match find_environments X with
        | Err e => Err e
        | Ok envs => Ok (a, Some (ChangeState (SelectTarget envs)))
        end
    | AcceptSelectTarget s =>
        match set_target X s with
        | Err e => Err e
        | Ok _ => Ok (set_target_name a s, Some (ChangeState Idle))
        end
    | EditRequest =>
        match edit_request X with
        | Err e => Err e
        | Ok _ => Ok (a, None)
        end
    | ShowError err => Ok (set_error a (Some err), None)
    end.

  (** The inner loop of [App::run]: a failed dispatch becomes [ShowError]. *)
Definition dispatch_step (a : App) (intent : Intent) : App * option Intent :=
    match dispatch intent a with
    | Ok r => r
    | Err e => (a, Some (ShowError e))
    end.

  (** The value pushed for an accepted candidate ([None]: "Replacement
      not found"). *)
Definition select_value (selected : Value) : option string :=
    match selected with
    | VTable t =>
        match get t "value" with
        | Some (VString value) => Some value
        | Some value => Some (value_to_string X value)
        | None => None
        end
    | other => Some (value_to_string X other)
    end.

  (** [SelectItem::text for Value] *)
Definition select_text (v : Value) : string :=
    match v with
    | VTable t =>
        match get t "name" with
        | Some (VString value) => value
        | Some value => value_to_string X value
        | None => table_to_string X t
        end
    | other => value_to_string X other
    end.

  (** [Component::handle_event for App] *)
Definition handle_event (ev : Event) (a : App) : App * option Intent :=
    if negb (ev_press ev) then (a, None) else
    match state a with
    | PendingValue file_path key pending_options (PSelect values) =>
        match ev_select ev with
        | None => (a, None)
        | Some SAbort => (a, Some (ChangeState Idle))
        | Some (SAccept i) =>
            match nth_error values i with
            | None => (a, None)
            | Some selected =>
                match select_value selected with
                | None => (a, Some (ShowError ("Replacement not found: " ++ key)))
                | Some value =>
                    let opts := pending_options ++ [(key, value)] in
                    (set_state a (PendingValue file_path key opts (PSelect values)),
                     Some (PrepareRequest file_path opts))
                end
            end
        end
    | PendingValue file_path key pending_options (PPrompt fallback) =>
        match ev_prompt ev with
        | None => (a, None)
        | Some PAbort => (a, Some (ChangeState Idle))
        | Some (PAccept value) =>
            let opts := pending_options ++ [(key, value)] in
            (set_state a (PendingValue file_path key opts (PPrompt fallback)),
             Some (PrepareRequest file_path opts))
        end
    | Idle =>
        match (match ev_select ev with
               | Some (SAccept i) => nth_error (reqs a) i
               | _ => None
               end) with
        | Some file_path => (a, Some (PrepareRequest file_path []))
        | None =>
            match ev_key ev with
            | KEditor => (a, Some EditRequest)
            | KAbort => (a, Some Quit)
            | KSelectTarget => (a, Some SelectTargetI)
            | KOther => (a, None)
            end
        end
    | RunningRequest h =>
        match ev_key ev with
        | KAbort => (abort_handle h a, Some (ChangeState Idle))
        | _ => (a, None)
        end
    | SelectTarget items =>
        match ev_select ev with
        | Some SAbort => (a, Some (ChangeState Idle))
        | Some (SAccept i) =>
            match nth_error items i with
            | Some s => (a, Some (AcceptSelectTarget s))
            | None => (a, None)
            end
        | None => (a, None)
        end
    end.

  (** Top of the [App::run] loop: collect a finished request;
      [handle.await??] makes [run] itself return the task's error. *)
Definition run_poll_check (a : App) : result App string :=
    match state a with
    | RunningRequest h =>
        match lookup_task h (live a) with
        | Some (TDone (Ok _)) =>
            Ok (set_state (mkApp (state a) (error a) (should_quit a) (target a)
                  (reqs a) (remove_task h (live a)) (next_handle a) (store a)
                  (extracted a) (aborted a)) Idle)
        | Some (TDone (Err e)) => Err e
        | _ => Ok a
        end
    | _ => Ok a
    end.

  (** Configurations of the event loop: the application and the intent
      still to be dispatched.  Spawned tasks progress at any time. *)
Inductive reach : App -> option Intent -> Prop :=
  | reach_init : forall t r s0, reach (app_new t r s0) None
  | reach_poll : forall a a', reach a None -> run_poll_check a = Ok a' -> reach a' None
  | reach_event : forall a ev a' i,
      reach a None -> handle_event ev a = (a', i) -> reach a' i
  | reach_dispatch : forall a i a' i',
      reach a (Some i) -> dispatch_step a i = (a', i') -> reach a' i'
  | reach_task : forall a i h, reach a i -> reach (poll_task h a) i.

Definition state_live (st : AppState) : list nat :=
    match st with RunningRequest h => [h] | _ => [] end.

  (** The live tasks are those named by the state, once the pending
      intent is accounted for. *)
Definition inv_live (a : App) (i : option Intent) : Prop :=
    match i with
    | None => map fst (live a) = state_live (state a)
    | Some (ChangeState st) => map fst (live a) = state_live st
    | Some _ => live a = [] /\ state_live (state a) = []
    end.

  (** Bookkeeping of task ids, and: a task that entered its extraction
      block has finished, whether it is still live or was aborted. *)
Definition inv_tasks (l : list (nat * Task)) (next : nat)
      (ext : list nat) (ab : list (nat * Task)) : Prop :=
    (forall h t, In (h, t) l -> h < next) /\
    (forall h t, In (h, t) ab -> h < next) /\
    (forall h, In h ext -> h < next) /\
    (forall h t t', In (h, t) ab -> ~ In (h, t') l) /\
    (forall h t, In (h, t) l -> In h ext -> task_done t = true) /\
    (forall h t, In (h, t) ab -> In h ext -> task_done t = true).

Definition inv_ext (a : App) : Prop :=
    inv_tasks (live a) (next_handle a) (extracted a) (aborted a).

  (** The inner loop of [App::run], [while let Some(intent) = pending_intent],
      run for at most [fuel] dispatches. *)
Fixpoint dispatch_loop (fuel : nat) (a : App) (i : option Intent) : App * option Intent :=
    match fuel, i with
    | S f, Some intent =>
        let '(a', i') := dispatch_step a intent in dispatch_loop f a' i'
    | _, _ => (a, i)
    end.
End App.

(** [str::lines]: split at ["
"]; a line ended by ["
"] loses one
    trailing ["
"]; a final line without ["
"] is kept as it is; no
    empty line after a final ["
"].  The line being read is kept reversed. *)
Definition strip_cr (racc : list ascii) : list ascii :=
  match racc with
  | c :: r => if Ascii.eqb c "013" then r else racc
  | [] => []
  end.

Fixpoint lines_from (racc : list ascii) (s : string) : list string :=
  match s with
  | EmptyString =>
      match racc with
      | [] => []
      | _ => [string_of_list_ascii (rev racc)]
      end
  | String c rest =>
      if Ascii.eqb c "010" then string_of_list_ascii (rev (strip_cr racc)) :: lines_from [] rest
      else lines_from (c :: racc) rest
  end.

Definition lines (s : string) : list string := lines_from [] s.

(** The request pane of [make_request]: [writeln!(request.header, "> {}", line)]
    for each line of the prepared request, then [writeln!(request.header)]. *)
Definition request_header (buf : string) : string :=
  fold_right (fun line acc => "> " ++ line ++ String "010" acc)%string
    (String "010" "") (lines buf).

(** A string whose last character is ["
"]. *)
Definition ends_cr (s : string) : bool :=
  match rev (list_ascii_of_string s) with
  | c :: _ => Ascii.eqb c "013"
  | [] => false
  end.

End Ui.

(** ** Watch mode ([watch_mode] in [src/main.rs]) *)

Module Watch.

(** The [notify] event kinds the loop distinguishes. *)
Inductive EventKind : Type := Modify | OtherKind.

Section WatchLoop.
  (** The configuration files on disk, and [load_env] reading them. *)
  Variable Cfg : Type.
  Variable load_env : Cfg -> Table.

  (** [backlog]: events the watcher thread has produced but not yet handed
      to the channel (its callback is blocked in [blocking_send]); [slot]:
      the channel of capacity 1; [busy]: the loop is inside
      [make_request]; [runs]: the environment each run used; [env]: the
      table [main] passed to [watch_mode]. *)
Record W : Type := mkW {
    env : Table;
    config : Cfg;
    backlog : list EventKind;
    slot : option EventKind;
    busy : bool;
    runs : list Table;
    notified : list EventKind;
    received : list EventKind
  }.

Inductive Action : Type :=
  | Notify : EventKind -> Action   (** the file system reports an event *)
  | Deliver : Action               (** a blocked [blocking_send] completes *)
  | Recv : Action                  (** [rx.recv().await] returns *)
  | Finish : Action                (** [make_request] returns *)
  | Edit : Cfg -> Action.          (** the configuration files are edited *)

Definition watch_step (w : W) (act : Action) : W :=
    match act with
    | Notify k =>
        mkW (env w) (config w) (backlog w ++ [k]) (slot w) (busy w) (runs w)
          (notified w ++ [k]) (received w)
    | Deliver =>
        match slot w, backlog w with
        | None, k :: rest =>
            mkW (env w) (config w) rest (Some k) (busy w) (runs w) (notified w) (received w)
        | _, _ => w
        end
    | Recv =>
        if busy w then w else
        match slot w with
        | Some k =>
            match k with
            | Modify =>
                mkW (env w) (config w) (backlog w) None true (runs w ++ [env w])
                  (notified w) (received w ++ [k])
            | OtherKind =>
                mkW (env w) (config w) (backlog w) None false (runs w)
                  (notified w) (received w ++ [k])
            end
        | None => w
        end
    | Finish =>
        mkW (env w) (config w) (backlog w) (slot w) false (runs w) (notified w) (received w)
    | Edit c =>
        mkW (env w) c (backlog w) (slot w) (busy w) (runs w) (notified w) (received w)
    end.

Definition exec (acts : list Action) (w : W) : W := fold_left watch_step acts w.

  (** [main] with a file and [--watch]: load the environment once, run the
      request once to completion, then enter [watch_mode file_path env]. *)
Definition watch_start (cfg : Cfg) : W :=
    let e := load_env cfg in mkW e cfg [] None false [e] [] [].

Definition opt_list {A} (o : option A) : list A :=
    match o with Some x => [x] | None => [] end.

Definition count_modify (l : list EventKind) : nat :=
    length (filter (fun k => match k with Modify => true | OtherKind => false end) l).

  (** No event is lost, one run per received [Modify] after the first. *)
Definition watch_inv (w : W) : Prop :=
    received w ++ opt_list (slot w) ++ backlog w = notified w /\
    length (runs w) = 1 + count_modify (received w).
End WatchLoop.

Definition burst_setup : list (Action unit) :=
  [Notify unit Modify; Deliver unit; Recv unit;
   Notify unit Modify; Notify unit Modify; Notify unit Modify; Deliver unit].

Definition burst_drain : list (Action unit) :=
  [Finish unit; Recv unit; Deliver unit; Finish unit; Recv unit; Deliver unit;
   Finish unit; Recv unit; Finish unit].

End Watch.

(** ** The command-line entry point ([main] in [src/main.rs]) *)

Module Cli.

Record Args : Type := mkArgs {
  name : option string;
  batch : bool;
  watch : bool;
  non_interactive : bool;
  select : bool;
  repeat : bool
}.

(** [set_interactive_mode(!(args.non_interactive || args.watch))] *)
Definition interactive_mode (args : Args) : bool :=
  negb (non_interactive args || watch args).

(** Errors reaching [main]: the two [inquire] cancellations, anything else. *)
Inductive Error : Type :=
| OperationCanceled : Error
| OperationInterrupted : Error
| OtherError : string -> Error.

(** [is_user_cancelation] *)
Definition is_user_cancelation (e : Error) : bool :=
  match e with
  | OperationCanceled | OperationInterrupted => true
  | OtherError _ => false
  end.

(** The final [match &result] of [main]. *)
Definition final_filter (r : result unit Error) : result unit Error :=
  match r with
  | Err e => if is_user_cancelation e then Ok tt else Err e
  | Ok u => Ok u
  end.

Inductive LoopOutcome : Type :=
| LoopPending : list Error -> LoopOutcome
| LoopReturned : Error -> list Error -> LoopOutcome
| LoopBroke : result unit Error -> list Error -> LoopOutcome.

(** One round of the picker loop of [main]: the result of the [Select]
    prompt, of [load_env(&root_dir, file_path, &args.options)], and of
    [make_request]. *)
Record Round : Type := mkRound {
  picked : result nat Error;
  env_loaded : result unit Error;
  requested : result unit Error
}.

(** The picker loop of [main] (no file argument).  An error of the prompt
    or of [load_env] leaves [main] through [?]; [logged] are the
    [error!] lines. *)
Fixpoint picker_loop (rep : bool) (rounds : list Round) (logged : list Error) : LoopOutcome :=
  match rounds with
  | [] => LoopPending logged
  | r :: rest =>
      match picked r with
      | Err e => LoopReturned e logged
      | Ok _ =>
          match env_loaded r with
          | Err e => LoopReturned e logged
          | Ok _ =>
              if negb rep then LoopBroke (requested r) logged else
              match requested r with
              | Ok _ => picker_loop rep rest logged
              | Err e =>
                  picker_loop rep rest
                    (if is_user_cancelation e then logged else logged ++ [e])
              end
          end
      end
  end.

Inductive MainOutcome : Type :=
| Exited : result unit Error -> list Error -> MainOutcome
| StillRunning : list Error -> MainOutcome.

(** [main] after the root directory was found, without [--select]:
    [single] is the result of the file-argument branch (single request,
    batch or watch). *)
Definition main_model (args : Args) (single : result unit Error)
    (rounds : list Round) : MainOutcome :=
  match name args with
  | Some _ => Exited (final_filter single) []
  | None =>
      match picker_loop (repeat args) rounds [] with
      | LoopPending l => StillRunning l
      | LoopReturned e l => Exited (Err e) l
      | LoopBroke r l => Exited (final_filter r) l
      end
  end.

(** The errors [make_request] returned in the rounds of the picker loop. *)
Definition request_errors (rounds : list Round) : list Error :=
  flat_map (fun r => match requested r with Ok _ => [] | Err e => [e] end) rounds.

(** Modelled from the spec: the [prompt] and [request] modules that run
    the resolution protocol for [main] are not part of [src/].  Section
    4.3: a substitution failure asks the user for one value in an
    interactive context ([answer] is what the user gives, [None] a
    cancellation) and is a hard failure otherwise. *)
Inductive RoundOutcome : Type :=
| Resolved : string -> RoundOutcome
| AddOverride : string -> string -> RoundOutcome
| Cancelled : RoundOutcome
| HardFailure : SubstituteError -> RoundOutcome.

Definition resolve_round (interactive : bool) (outcome : result string SubstituteError)
    (answer : option string) : RoundOutcome :=
  match outcome with
  | Ok text => Resolved text
  | Err (ValueNotFound k _ as e) | Err (MultipleValuesFound k _ as e) =>
      if interactive then
        match answer with
        | Some v => AddOverride k v
        | None => Cancelled
        end
      else HardFailure e
  | Err e => HardFailure e
  end.

End Cli.

(** ** Request discovery ([find_available_requests] in [src/main.rs]) *)

Module Discovery.

(** A directory tree; a path is its list of components. *)
Inductive Entry : Type :=
| File : string -> Entry
| Dir : string -> list Entry -> Entry.

Definition entry_name (e : Entry) : string :=
  match e with File n => n | Dir n _ => n end.

(** [walkdir::DirEntry]: full path, depth below the start, file name. *)
Record DirEntry : Type := mkDirEntry {
  de_path : list string;
  de_depth : nat;
  de_file_name : string
}.

(** [WalkDir::new(path)]: the start itself at depth 0, then every entry,
    directories before their contents. *)
Fixpoint walk (base : list string) (depth : nat) (e : Entry) : list DirEntry :=
  mkDirEntry base depth (entry_name e) ::
  match e with
  | File _ => []
  | Dir _ cs => flat_map (fun c => walk (base ++ [entry_name c]) (S depth) c) cs
  end.

(** [str::ends_with] *)
Definition ends_with (s suffix : string) : bool :=
  let n := String.length s in
  let m := String.length suffix in
  Nat.leb m n && String.eqb (substring (n - m) m s) suffix.

(** [find_available_requests(cwd)]: keep the entries whose name ends with
    [".http"] and cut each path to its last [depth] components. *)
Definition find_available_requests (cwd : list string) (e : Entry) : list (list string) :=
  map (fun de => skipn (length (de_path de) - de_depth de) (de_path de))
    (filter (fun de => ends_with (de_file_name de) ".http") (walk cwd 0 e)).








(** Induction on entries, through the children lists. *)
Fixpoint Entry_ind' (P : Entry -> Prop) (Pf : forall n, P (File n))
    (Pd : forall n cs, Forall P cs -> P (Dir n cs)) (e : Entry) : P e :=
  match e with
  | File n => Pf n
  | Dir n cs =>
      Pd n cs ((fix go (l : list Entry) : Forall P l :=
                  match l with
                  | [] => Forall_nil P
                  | c :: rest => Forall_cons c (Entry_ind' P Pf Pd c) (go rest)
                  end) cs)
  end.

(** What [walk] yields, relative to the start: the path below it and the
    entry's name, in the same order. *)
Fixpoint rel_walk (e : Entry) : list (list string * string) :=
  ([], entry_name e) ::
  match e with
  | File _ => []
  | Dir _ cs => flat_map (fun c => map (fun pr => (entry_name c :: fst pr, snd pr)) (rel_walk c)) cs
  end.


End Discovery.

(** ** A concrete set of collaborators

    Used to run the UI model on concrete inputs: the store is the
    persisted data table, a response is its decoded JSON body if any, the
    project has the candidate list of the spec's scenario. *)
Module Demo.
  Import Ui.

Definition demo_value_to_string (v : Value) : string :=
    match v with
    | VString s => s
    | VInteger _ => "int"
    | VBoolean b => if b then "true" else "false"
    | VOtherScalar s => s
    | VArray _ => "array"
    | VTable _ => "table"
    end.

Definition candidates : list Value :=
    [VTable [("name", VString "prod"); ("value", VString "https://prod")];
     VTable [("name", VString "dev"); ("value", VString "https://dev")]].

Definition demo_config : Table := [("env", VArray candidates)].

Definition demo_read (fp : string) : result string string :=
    if String.eqb fp "env.http" then Ok "{{env}}"
    else if String.eqb fp "auth.http" then Ok "Authorization: {{token}}"
    else Err "No such file".

Definition demo_load_env (s : Table) (root fp : string) (opts : list (string * string))
    : result Table string :=
    Ok (map (fun kv => (fst kv, VString (snd kv))) (rev opts) ++ s ++ demo_config).

  (** [persist_ok = false]: writing the data file fails. *)
Definition demo (persist_ok : bool) : Externals Table (option Value) Value :=
    mkExternals Table (option Value) Value
      demo_value_to_string
      (fun _ => "table")
      (fun _ => "unsupported value")
      demo_read
      demo_load_env
      (Ok ["dev"; "prod"])
      (fun _ => Ok tt)
      (Ok tt)
      (Ok tt)
      (fun _ => Ok (Some (VTable [("token", VString "abc123")])))
      (fun _ => Ok tt)
      (fun r => r)
      (fun _ => Ok "{}")
      (fun _ _ => Ok [("token", VString "abc123")])
      (fun vars s => if persist_ok then Ok (vars ++ s) else Err "Permission denied").

  (** The same project with the network down and a read-only target file. *)
Definition demo_offline : Externals Table (option Value) Value :=
    mkExternals Table (option Value) Value
      demo_value_to_string
      (fun _ => "table")
      (fun _ => "unsupported value")
      demo_read
      demo_load_env
      (Ok ["dev"; "prod"])
      (fun _ => Err "Permission denied")
      (Ok tt)
      (Ok tt)
      (fun _ => Err "Connection refused")
      (fun _ => Ok tt)
      (fun r => r)
      (fun _ => Ok "{}")
      (fun _ _ => Ok [("token", VString "abc123")])
      (fun vars s => Ok (vars ++ s)).

Definition demo_app : @App Table (option Value) :=
    app_new "dev" ["env.http"; "auth.http"] [].

Definition press_prompt (v : string) : Event := mkEvent true KOther None (Some (PAccept v)).
Definition press_select (i : nat) : Event := mkEvent true KOther (Some (SAccept i)) None.
Definition press_key (k : KeyMapping) : Event := mkEvent true k None None.
End Demo.

(** * Properties *)

Example tokenize_fallback :
  tokenize "a {{x:-d}} b" = [Lit "a "; Ph "x" (Some "d"); Lit " b"].
Proof. reflexivity. Qed.

Section UiProofs.
  Import Ui.
  Context {Store Response Json : Type}.
  Variable X : Externals Store Response Json.
  Variable root_dir : string.
  Local Notation inv_live := (@inv_live Store Response).
  Local Notation inv_tasks := (@inv_tasks Response).
  Local Notation inv_ext := (@inv_ext Store Response).

Lemma map_fst_update_task h (t : @Task Response) l : map fst (update_task h t l) = map fst l.
  Proof.
    induction l as [|[h' t'] l IH]; simpl; [reflexivity|].
    destruct (Nat.eqb h h') eqn:E; simpl; rewrite IH;
      [apply Nat.eqb_eq in E; subst|]; reflexivity.
  Qed.

Lemma remove_task_single h (l : list (nat * @Task Response)) : map fst l = [h] -> remove_task h l = [].
  Proof.
    destruct l as [|[h' t] [|p l]]; simpl; intro Hm; try discriminate.
    inversion Hm; subst. unfold remove_task; simpl. now rewrite Nat.eqb_refl.
  Qed.

Lemma map_fst_nil {A B} (l : list (A * B)) : map fst l = [] -> l = [].
  Proof. destruct l; simpl; congruence. Qed.

Lemma poll_task_state h a : state (poll_task X root_dir h a) = state a.
  Proof.
    unfold poll_task; destruct (lookup_task h (live a)) as [t|]; [|reflexivity].
    destruct (step_task X root_dir t (store a)) as [[t' s'] w]; reflexivity.
  Qed.

Lemma poll_task_live h a :
    map fst (live (poll_task X root_dir h a)) = map fst (live a).
  Proof.
    unfold poll_task; destruct (lookup_task h (live a)) as [t|]; [|reflexivity].
    destruct (step_task X root_dir t (store a)) as [[t' s'] w]; simpl.
    apply map_fst_update_task.
  Qed.


Lemma inv_live_poll_task a i h :
    inv_live a i -> inv_live (poll_task X root_dir h a) i.
  Proof.
    intro H. pose proof (poll_task_live h a) as L. pose proof (poll_task_state h a) as S.
    destruct i as [[]|]; simpl in *; rewrite ?S, ?L; try exact H;
      destruct H as [H1 H2]; split; try exact H2;
      apply map_fst_nil; rewrite L, H1; reflexivity.
  Qed.

Ltac split_matches H :=
    repeat match type of H with
    | context [match ?x with _ => _ end] => destruct x eqn:?
    end.

Ltac split_all_matches :=
    repeat match goal with
    | H : context [match ?x with _ => _ end] |- _ => destruct x eqn:?
    end.

Ltac inject_results :=
    repeat match goal with
    | H : Ok _ = Ok _ |- _ => injection H as H
    | H : Err _ = Ok _ |- _ => discriminate H
    | H : Ok _ = Err _ |- _ => discriminate H
    | H : false = true |- _ => discriminate H
    | H : true = false |- _ => discriminate H
    | H : Some _ = Some _ |- _ => injection H as H
    | H : (_, _) = (_, _) |- _ => injection H as H
    | H : ?x = _ |- _ => is_var x; subst x
    | H : _ = ?x |- _ => is_var x; subst x
    end.

Lemma inv_live_reach a i : reach X root_dir a i -> inv_live a i.
  Proof.
    induction 1 as [t r s0|a a' Hr IH Hp|a ev a' i Hr IH He|a i a' i' Hr IH Hd|a i h Hr IH].
    - reflexivity.
    - simpl in *. unfold run_poll_check in Hp. destruct (state a) eqn:Es; simpl in IH;
        try (injection Hp as <-; rewrite ?Es; exact IH).
      destruct (lookup_task n (live a)) as [[| | |[]]|] eqn:El;
        try (injection Hp as <-; rewrite ?Es; exact IH); try discriminate.
      injection Hp as <-. simpl.
      rewrite (remove_task_single _ _ IH). reflexivity.
    - simpl in IH. unfold handle_event in He.
      destruct (ev_press ev); simpl in He;
        [|injection He as <- <-; exact IH].
      destruct (state a) eqn:Es; simpl in IH;
        split_matches He; injection He as <- <-; simpl;
        rewrite ?Es; auto using map_fst_nil.
      unfold abort_handle; simpl. rewrite (remove_task_single _ _ IH). reflexivity.
    - unfold dispatch_step, dispatch, try_request, send_request in Hd.
      destruct i; simpl in IH;
        try match type of IH with _ /\ _ => destruct IH as [IH1 IH2] end; simpl in Hd;
        split_all_matches; inject_results; simpl; rewrite ?IH1, ?IH2; auto.
    - apply inv_live_poll_task; exact IH.
  Qed.


Lemma lookup_task_in h (l : list (nat * @Task Response)) t :
    lookup_task h l = Some t -> In (h, t) l.
  Proof.
    induction l as [|[h' t'] l IH]; simpl; [discriminate|].
    destruct (Nat.eqb h h') eqn:E; [apply Nat.eqb_eq in E; subst|].
    - intro H; injection H as <-; left; reflexivity.
    - intro H; right; apply IH, H.
  Qed.

Lemma in_update_task h t (l : list (nat * @Task Response)) h0 t0 :
    In (h0, t0) (update_task h t l) -> (h0 = h /\ t0 = t) \/ (h0 <> h /\ In (h0, t0) l).
  Proof.
    unfold update_task. rewrite in_map_iff. intros [[h' t'] [Eq Hin]]; simpl in Eq.
    destruct (Nat.eqb h h') eqn:E.
    - injection Eq as <- <-. left; split; reflexivity.
    - injection Eq as -> ->. right; split; [|exact Hin].
      intros ->. rewrite Nat.eqb_refl in E. discriminate.
  Qed.

Lemma in_remove_task h (l : list (nat * @Task Response)) h0 t0 :
    In (h0, t0) (remove_task h l) -> h0 <> h /\ In (h0, t0) l.
  Proof.
    unfold remove_task. rewrite filter_In. simpl. intros [Hin Hn]. split; [|exact Hin].
    intros ->. rewrite Nat.eqb_refl in Hn. discriminate.
  Qed.

Lemma step_task_entered t s t' s' :
    step_task X root_dir t s = (t', s', true) -> task_done t' = true.
  Proof.
    unfold step_task; intro H; split_matches H; inject_results; reflexivity.
  Qed.

Lemma step_task_quiet t s t' s' :
    step_task X root_dir t s = (t', s', false) -> s' = s.
  Proof.
    unfold step_task; intro H; split_matches H; inject_results; reflexivity.
  Qed.

Lemma step_task_finished t s :
    task_done t = true -> step_task X root_dir t s = (t, s, false).
  Proof. destruct t; simpl; congruence. Qed.

Lemma inv_tasks_remove h l next ext ab :
    inv_tasks l next ext ab -> inv_tasks (remove_task h l) next ext ab.
  Proof.
    intros (H1 & H2 & H3 & H4 & H5 & H6); repeat split; auto.
    - intros h0 t0 Hin; apply in_remove_task in Hin; apply (H1 h0 t0), Hin.
    - intros h0 t0 t1 Hab Hin; apply in_remove_task in Hin; apply (H4 h0 t0 t1 Hab), Hin.
    - intros h0 t0 Hin; apply in_remove_task in Hin; apply H5, Hin.
  Qed.

Lemma inv_ext_abort h a : inv_ext a -> inv_ext (abort_handle h a).
  Proof.
    unfold inv_ext, abort_handle; simpl. intro I.
    pose proof (inv_tasks_remove h _ _ _ _ I) as (R1 & R2 & R3 & R4 & R5 & R6).
    destruct I as (H1 & H2 & H3 & H4 & H5 & H6).
    destruct (lookup_task h (live a)) as [t|] eqn:El; [|repeat split; auto].
    apply lookup_task_in in El.
    repeat split; auto.
    - intros h0 t0 [E|Hab]; [injection E as <- <-; apply (H1 h t El)|apply (H2 h0 t0 Hab)].
    - intros h0 t0 t1 [E|Hab] Hin.
      + injection E as <- <-. apply in_remove_task in Hin. apply (proj1 Hin). reflexivity.
      + apply (R4 h0 t0 t1 Hab Hin).
    - intros h0 t0 [E|Hab]; [injection E as <- <-; apply (H5 h t El)|apply (H6 h0 t0 Hab)].
  Qed.

Lemma inv_ext_send a fp buf : inv_ext a -> inv_ext (fst (send_request a fp buf)).
  Proof.
    unfold inv_ext, send_request; simpl. intros (H1 & H2 & H3 & H4 & H5 & H6).
    repeat split.
    - intros h0 t0 [E|Hin]; [injection E as <- _; lia|specialize (H1 h0 t0 Hin); lia].
    - intros h0 t0 Hab; specialize (H2 h0 t0 Hab); lia.
    - intros h0 Hin; specialize (H3 h0 Hin); lia.
    - intros h0 t0 t1 Hab [E|Hin].
      + injection E as <- _. specialize (H2 _ _ Hab); lia.
      + apply (H4 h0 t0 t1 Hab Hin).
    - intros h0 t0 [E|Hin] Hx.
      + injection E as <- _. specialize (H3 _ Hx); lia.
      + apply (H5 h0 t0 Hin Hx).
    - exact H6.
  Qed.

Lemma inv_ext_poll h a : inv_ext a -> inv_ext (poll_task X root_dir h a).
  Proof.
    unfold inv_ext, poll_task. intros I.
    destruct (lookup_task h (live a)) as [t|] eqn:El; [|exact I].
    apply lookup_task_in in El.
    destruct I as (H1 & H2 & H3 & H4 & H5 & H6).
    destruct (step_task X root_dir t (store a)) as [[t' s'] w] eqn:Es. simpl.
    assert (Hdone : In h (if w then h :: extracted a else extracted a) -> task_done t' = true).
    { destruct w; [intros _; apply (step_task_entered _ _ _ _ Es)|].
      intro Hx. rewrite (step_task_finished t (store a) (H5 h t El Hx)) in Es.
      injection Es as <- _; apply (H5 h t El Hx). }
    assert (Hext : forall h0, In h0 (if w then h :: extracted a else extracted a) ->
                    h0 = h \/ In h0 (extracted a)).
    { destruct w; simpl; [intros h0 [E|E]; [left; symmetry; exact E|right; exact E]|auto]. }
    repeat split.
    - intros h0 t0 Hin. apply in_update_task in Hin as [[-> _]|[_ Hin]];
        [apply (H1 h t El)|apply (H1 h0 t0 Hin)].
    - exact H2.
    - intros h0 Hx. destruct (Hext h0 Hx) as [->|Hx']; [apply (H1 h t El)|apply H3, Hx'].
    - intros h0 t0 t1 Hab Hin. apply in_update_task in Hin as [[-> _]|[_ Hin]];
        [apply (H4 h t0 t Hab El)|apply (H4 h0 t0 t1 Hab Hin)].
    - intros h0 t0 Hin Hx. apply in_update_task in Hin as [[-> ->]|[Hne Hin]];
        [apply Hdone, Hx|].
      destruct (Hext h0 Hx) as [->|Hx']; [congruence|apply (H5 h0 t0 Hin Hx')].
    - intros h0 t0 Hab Hx. destruct (Hext h0 Hx) as [->|Hx'].
      + exfalso. apply (H4 h t0 t Hab El).
      + apply (H6 h0 t0 Hab Hx').
  Qed.

Lemma inv_ext_reach a i : reach X root_dir a i -> inv_ext a.
  Proof.
    induction 1 as [t r s0|a a' Hr IH Hp|a ev a' i Hr IH He|a i a' i' Hr IH Hd|a i h Hr IH].
    - unfold inv_ext; simpl. repeat split; simpl; intros; contradiction.
    - unfold run_poll_check in Hp. split_all_matches; inject_results; try exact IH.
      apply inv_tasks_remove, IH.
    - unfold handle_event in He. split_all_matches; inject_results; try exact IH.
      apply inv_ext_abort, IH.
    - unfold dispatch_step, dispatch, try_request in Hd.
      destruct i; simpl in Hd; split_all_matches; inject_results; try exact IH.
      replace a' with (fst (send_request a s s0)) by (rewrite Hd; reflexivity).
      apply inv_ext_send, IH.
    - apply inv_ext_poll, IH.
  Qed.

Lemma substitute_segs_first_array pre k fb rest env vs :
    forallb (seg_scalar env) pre = true ->
    get env k = Some (VArray vs) ->
    substitute_segs (value_to_string X) (pre ++ Ph k fb :: rest) env
      = Err (MultipleValuesFound k vs).
  Proof.
    intros Hpre Hk. induction pre as [|sg pre IH]; simpl.
    - rewrite Hk. reflexivity.
    - simpl in Hpre. apply andb_prop in Hpre as [Hsg Hpre].
      rewrite (IH Hpre). destruct sg as [l|n f]; [reflexivity|].
      simpl in Hsg. destruct (get env n) as [[]|]; try discriminate; reflexivity.
  Qed.

  (** C1: when substitution reports [ValueNotFound{key, fallback}], the UI
      opens a prompt carrying the fallback without adding any override;
      an event in that prompt either does nothing, cancels, or appends
      exactly one pair (key, accepted text) to the accumulated overrides
      and asks for substitution again with the extended list. *)
Theorem prompt_round_appends_one_override a fp opts env tpl k fb :
    load_env X (store a) root_dir fp opts = Ok env ->
    read_to_string X fp = Ok tpl ->
    substitute (value_to_string X) tpl env = Err (ValueNotFound k fb) ->
    dispatch_step X root_dir a (PrepareRequest fp opts)
      = (a, Some (AskForValue k fp opts (AskPrompt fb))) /\
    dispatch_step X root_dir a (AskForValue k fp opts (AskPrompt fb))
      = (a, Some (ChangeState (PendingValue fp k opts (PPrompt fb)))) /\
    (forall b ev, state b = PendingValue fp k opts (PPrompt fb) ->
       let '(b', i) := handle_event X ev b in
       i = None \/ i = Some (ChangeState Idle) \/
       exists v, ev_prompt ev = Some (PAccept v) /\
                 i = Some (PrepareRequest fp (opts ++ [(k, v)])) /\
                 state b' = PendingValue fp k (opts ++ [(k, v)]) (PPrompt fb)).
  Proof.
    intros He Hr Hs. split; [|split].
    - unfold dispatch_step, dispatch, try_request. rewrite He, Hr, Hs. reflexivity.
    - reflexivity.
    - intros b ev Hb. unfold handle_event. rewrite Hb.
      destruct (ev_press ev); simpl; [|left; reflexivity].
      destruct (ev_prompt ev) as [[|v]|] eqn:Ep.
      + right; left; reflexivity.
      + right; right. exists v. repeat split; reflexivity.
      + left; reflexivity.
  Qed.

  (** C2: when the first placeholder that does not resolve to a scalar
      holds a sequence, substitution reports exactly that sequence; the UI
      offers it unchanged, adds no override by itself, and the only value
      it ever adds is taken from the candidate the user accepts: its
      "value" field for a table (whose "name" field is its label),
      its textual form otherwise. *)
Theorem candidates_offered_and_chosen a fp opts env tpl pre k fb rest vs :
    load_env X (store a) root_dir fp opts = Ok env ->
    read_to_string X fp = Ok tpl ->
    tokenize tpl = pre ++ Ph k fb :: rest ->
    forallb (seg_scalar env) pre = true ->
    get env k = Some (VArray vs) ->
    substitute (value_to_string X) tpl env = Err (MultipleValuesFound k vs) /\
    dispatch_step X root_dir a (PrepareRequest fp opts)
      = (a, Some (AskForValue k fp opts (AskSelect vs))) /\
    dispatch_step X root_dir a (AskForValue k fp opts (AskSelect vs))
      = (a, Some (ChangeState (PendingValue fp k opts (PSelect vs)))) /\
    (forall b ev, state b = PendingValue fp k opts (PSelect vs) ->
       let '(b', i) := handle_event X ev b in
       i = None \/ i = Some (ChangeState Idle) \/
       i = Some (ShowError ("Replacement not found: " ++ k)) \/
       exists n c v, ev_select ev = Some (SAccept n) /\ nth_error vs n = Some c /\
                     select_value X c = Some v /\
                     i = Some (PrepareRequest fp (opts ++ [(k, v)])) /\
                     state b' = PendingValue fp k (opts ++ [(k, v)]) (PSelect vs)) /\
    (forall t v, get t "value" = Some (VString v) -> select_value X (VTable t) = Some v) /\
    (forall t v, get t "value" = Some v -> (forall s, v <> VString s) ->
       select_value X (VTable t) = Some (value_to_string X v)) /\
    (forall t l, get t "name" = Some (VString l) -> select_text X (VTable t) = l) /\
    (forall c, (forall t, c <> VTable t) -> select_value X c = Some (value_to_string X c)).
  Proof.
    intros He Hr Ht Hpre Hk.
    assert (Hs : substitute (value_to_string X) tpl env = Err (MultipleValuesFound k vs)).
    { unfold substitute. rewrite Ht. apply substitute_segs_first_array; assumption. }
    split; [exact Hs|]. split; [|split; [|split]].
    - unfold dispatch_step, dispatch, try_request. rewrite He, Hr, Hs. reflexivity.
    - reflexivity.
    - intros b ev Hb. unfold handle_event. rewrite Hb.
      destruct (ev_press ev); simpl; [|left; reflexivity].
      destruct (ev_select ev) as [[|n]|] eqn:Esel.
      + right; left; reflexivity.
      + destruct (nth_error vs n) as [c|] eqn:En; [|left; reflexivity].
        destruct (select_value X c) as [v|] eqn:Ev.
        * right; right; right. exists n, c, v. repeat split; first [assumption|reflexivity].
        * right; right; left; reflexivity.
      + left; reflexivity.
    - split; [|split; [|split]].
      + intros t v Hv. unfold select_value. rewrite Hv. reflexivity.
      + intros t v Hv Hns. unfold select_value. rewrite Hv.
        destruct v; try reflexivity. exfalso; eapply Hns; reflexivity.
      + intros t l Hl. unfold select_text. rewrite Hl. reflexivity.
      + intros c Hc. destruct c; try reflexivity. exfalso; eapply Hc; reflexivity.
  Qed.

  (** C7: in every reachable configuration of the UI loop at most one
      spawned request task is live; a request is only spawned
      ([SendRequest]) when the state is not [RunningRequest] and no task is
      live; while [RunningRequest], an event is either ignored (nothing
      changes) or is the abort key, which aborts the task and returns to
      [Idle]. *)
Theorem ui_one_request_in_flight a i :
    reach X root_dir a i ->
    length (live a) <= 1 /\
    (forall fp buf, i = Some (SendRequest fp buf) ->
       live a = [] /\ forall h, state a <> RunningRequest h) /\
    (forall h ev, i = None -> state a = RunningRequest h ->
       handle_event X ev a = (a, None) \/
       (ev_press ev = true /\ ev_key ev = KAbort /\
        handle_event X ev a = (abort_handle h a, Some (ChangeState Idle)) /\
        live (abort_handle h a) = [])).
  Proof.
    intro Hr. pose proof (inv_live_reach a i Hr) as I. split; [|split].
    - destruct i as [[]|]; simpl in I;
        first [ destruct I as [I _]; rewrite I; simpl; lia
              | rewrite <- (length_map fst), I; unfold state_live;
                repeat match goal with |- context [match ?x with _ => _ end] => destruct x end;
                simpl; lia ].
    - intros fp buf -> . simpl in I. destruct I as [I1 I2]. split; [exact I1|].
      intros h Hs. rewrite Hs in I2. discriminate.
    - intros h ev -> Hs. simpl in I. rewrite Hs in I. simpl in I.
      unfold handle_event. rewrite Hs.
      destruct (ev_press ev) eqn:Ep; simpl; [|left; reflexivity].
      destruct (ev_key ev) eqn:Ek; try (left; reflexivity).
      right. repeat split. unfold abort_handle; simpl.
      apply remove_task_single, I.
  Qed.

  (** C8: a task aborted before it finished never entered its extraction
      block (environment reload, [extract_variables], [update_data]); and
      the persisted store only changes in a poll that runs that block. *)
Theorem abort_leaves_store_unchanged a i :
    reach X root_dir a i ->
    (forall h t, In (h, t) (aborted a) -> task_done t = false -> ~ In h (extracted a)) /\
    (forall h, store (poll_task X root_dir h a) <> store a ->
       extracted (poll_task X root_dir h a) = h :: extracted a).
  Proof.
    intro Hr. pose proof (inv_ext_reach a i Hr) as (_ & _ & _ & _ & _ & I6). split.
    - intros h t Hab Hnd Hx. rewrite (I6 h t Hab Hx) in Hnd. discriminate.
    - intros h Hs. unfold poll_task in *.
      destruct (lookup_task h (live a)) as [t|]; [|contradiction Hs; reflexivity].
      destruct (step_task X root_dir t (store a)) as [[t' s'] w] eqn:Es.
      destruct w; [reflexivity|]. simpl in Hs.
      apply step_task_quiet in Es. contradiction.
  Qed.

  (** C5 (as amended): a response body that does not decode yields no
      extraction and the request succeeds; once it decodes, a failure of the
      environment reload, of [extract_variables] or of [update_data] is the
      task's result, and [App::run] returns it. *)
Theorem extraction_errors_propagate res fp s :
    (decode_json X res = None ->
       step_task X root_dir (TAwaitJson res fp) s = (TDone (Ok tt), s, false)) /\
    (forall json pretty e,
       decode_json X res = Some json -> to_string_pretty X json = Ok pretty ->
       load_env X s root_dir fp [] = Err e ->
       step_task X root_dir (TAwaitJson res fp) s = (TDone (Err e), s, true)) /\
    (forall json pretty env e,
       decode_json X res = Some json -> to_string_pretty X json = Ok pretty ->
       load_env X s root_dir fp [] = Ok env -> extract_variables X json env = Err e ->
       step_task X root_dir (TAwaitJson res fp) s = (TDone (Err e), s, true)) /\
    (forall json pretty env vars e,
       decode_json X res = Some json -> to_string_pretty X json = Ok pretty ->
       load_env X s root_dir fp [] = Ok env -> extract_variables X json env = Ok vars ->
       update_data X vars s = Err e ->
       step_task X root_dir (TAwaitJson res fp) s = (TDone (Err e), s, true)) /\
    (forall (a : @App Store Response) h e, state a = RunningRequest h ->
       lookup_task h (live a) = Some (TDone (Err e)) -> run_poll_check a = Err e).
  Proof.
    split; [|split; [|split; [|split]]].
    - intro Hd. simpl. rewrite Hd. reflexivity.
    - intros json pretty e Hd Hp Hl. simpl. rewrite Hd, Hp, Hl. reflexivity.
    - intros json pretty env e Hd Hp Hl Hx. simpl. rewrite Hd, Hp, Hl, Hx. reflexivity.
    - intros json pretty env vars e Hd Hp Hl Hx Hu. simpl.
      rewrite Hd, Hp, Hl, Hx, Hu. reflexivity.
    - intros a h e Hs Hl. unfold run_poll_check. rewrite Hs, Hl. reflexivity.
  Qed.
End UiProofs.

Section UiWitnesses.
  Import Ui Demo.

Ltac reach_event R ev :=
    let R' := fresh "R" in
    pose proof (reach_event _ _ _ ev _ _ R eq_refl) as R'; clear R; rename R' into R.
Ltac reach_dispatch R :=
    let R' := fresh "R" in
    pose proof (reach_dispatch _ _ _ _ _ _ R eq_refl) as R'; clear R; rename R' into R.
Ltac reach_poll_task R h :=
    let R' := fresh "R" in
    pose proof (reach_task _ _ _ _ h R) as R'; clear R; rename R' into R.

  (** The spec's scenario in the UI: choosing the second candidate of
      [{{env}}] sends ["https://dev"]. *)
Example env_scenario_sends_dev :
    exists a, reach (demo true) "root" a None /\ state a = RunningRequest 0 /\
              live a = [(0, TStart "https://dev" "env.http")].
  Proof.
    pose proof (reach_init (demo true) "root" "dev" ["env.http"; "auth.http"] []) as R.
    reach_event R (press_select 0). reach_dispatch R. reach_dispatch R. reach_dispatch R.
    reach_event R (press_select 1). reach_dispatch R. reach_dispatch R. reach_dispatch R.
    eexists; split; [exact R|]. split; reflexivity.
  Qed.

Lemma prompt_round_appends_one_override_witness :
    dispatch_step (demo true) "root" demo_app (PrepareRequest "auth.http" [])
      = (demo_app, Some (AskForValue "token" "auth.http" [] (AskPrompt None))).
  Proof.
    exact (proj1 (prompt_round_appends_one_override (demo true) "root" demo_app
             "auth.http" [] demo_config "Authorization: {{token}}" "token" None
             eq_refl eq_refl eq_refl)).
  Defined.

Lemma candidates_offered_and_chosen_witness :
    dispatch_step (demo true) "root" demo_app (PrepareRequest "env.http" [])
      = (demo_app, Some (AskForValue "env" "env.http" [] (AskSelect candidates))).
  Proof.
    exact (proj1 (proj2 (candidates_offered_and_chosen (demo true) "root" demo_app
             "env.http" [] demo_config "{{env}}" [] "env" None [] candidates
             eq_refl eq_refl eq_refl eq_refl eq_refl))).
  Defined.

Lemma ui_one_request_in_flight_witness :
    exists a, reach (demo true) "root" a None /\ state a = RunningRequest 0 /\
              length (live a) <= 1.
  Proof.
    pose proof (reach_init (demo true) "root" "dev" ["env.http"; "auth.http"] []) as R.
    reach_event R (press_select 0). reach_dispatch R. reach_dispatch R. reach_dispatch R.
    reach_event R (press_select 1). reach_dispatch R. reach_dispatch R. reach_dispatch R.
    eexists; split; [exact R|]. split; [reflexivity|].
    exact (proj1 (ui_one_request_in_flight (demo true) "root" _ None R)).
  Defined.

Lemma abort_leaves_store_unchanged_witness :
    exists a, reach (demo true) "root" a None /\ state a = Idle /\
              aborted a = [(0, TStart "https://dev" "env.http")] /\
              ~ In 0 (extracted a).
  Proof.
    pose proof (reach_init (demo true) "root" "dev" ["env.http"; "auth.http"] []) as R.
    reach_event R (press_select 0). reach_dispatch R. reach_dispatch R. reach_dispatch R.
    reach_event R (press_select 1). reach_dispatch R. reach_dispatch R. reach_dispatch R.
    reach_event R (press_key KAbort). reach_dispatch R.
    eexists; split; [exact R|]. split; [reflexivity|split; [reflexivity|]].
    apply (proj1 (abort_leaves_store_unchanged (demo true) "root" _ None R)
             0 (TStart "https://dev" "env.http")); [left; reflexivity|reflexivity].
  Defined.

Lemma extraction_errors_propagate_witness :
    step_task (demo false) "root" (TAwaitJson (Some (VTable [])) "auth.http") []
      = (TDone (Err "Permission denied"), [], true).
  Proof.
    exact (proj1 (proj2 (proj2 (proj2 (extraction_errors_propagate (demo false) "root"
             (Some (VTable [])) "auth.http" []))))
             (VTable []) "{}" demo_config [("token", VString "abc123")]
             "Permission denied" eq_refl eq_refl eq_refl eq_refl eq_refl).
  Defined.

  (** C5 fails: in a reachable run of the UI the transport call succeeds,
      the body decodes, persisting the extracted variables fails, and
      [App::run] returns that error. *)
Lemma extraction_error_fails_run :
    exists a, reach (demo false) "root" a None /\
      do_request (demo false) "https://dev" = Ok (Some (VTable [("token", VString "abc123")])) /\
      run_poll_check a = Err "Permission denied".
  Proof.
    pose proof (reach_init (demo false) "root" "dev" ["env.http"; "auth.http"] []) as R.
    reach_event R (press_select 0). reach_dispatch R. reach_dispatch R. reach_dispatch R.
    reach_event R (press_select 1). reach_dispatch R. reach_dispatch R. reach_dispatch R.
    reach_poll_task R 0. reach_poll_task R 0. reach_poll_task R 0.
    eexists; split; [exact R|]. split; vm_compute; reflexivity.
  Qed.
End UiWitnesses.

Section WatchProofs.
  Import Watch.
  Variable Cfg : Type.
  Variable load_env : Cfg -> Table.


Lemma count_modify_app l1 l2 : count_modify (l1 ++ l2) = count_modify l1 + count_modify l2.
  Proof. unfold count_modify. rewrite filter_app, length_app. reflexivity. Qed.

Lemma watch_inv_step w act : watch_inv Cfg w -> watch_inv Cfg (watch_step Cfg w act).
  Proof.
    unfold watch_inv. intros [H1 H2].
    destruct act as [k| | | |c]; simpl.
    - split; [|exact H2]. rewrite <- H1, !app_assoc. reflexivity.
    - destruct (slot Cfg w) eqn:Es; [rewrite Es; split; assumption|].
      destruct (backlog Cfg w) as [|k rest] eqn:Eb; [rewrite ?Es, ?Eb; split; assumption|].
      simpl. split; [|exact H2]. rewrite <- H1. reflexivity.
    - destruct (busy Cfg w); [split; assumption|].
      destruct (slot Cfg w) as [k|] eqn:Es; [|rewrite ?Es; split; assumption].
      destruct k; simpl; split;
        try (rewrite <- H1, <- app_assoc; reflexivity);
        rewrite ?length_app, count_modify_app, H2; unfold count_modify; simpl; lia.
    - split; assumption.
    - split; assumption.
  Qed.

Lemma watch_inv_exec acts w : watch_inv Cfg w -> watch_inv Cfg (exec Cfg acts w).
  Proof.
    revert w; induction acts as [|act acts IH]; intros w Hw; simpl; [exact Hw|].
    apply IH, watch_inv_step, Hw.
  Qed.

  (** Every run of the loop uses the table [main] handed to [watch_mode]. *)
Lemma watch_runs_use_startup_env acts w :
    Forall (eq (env Cfg w)) (runs Cfg w) ->
    Forall (eq (env Cfg w)) (runs Cfg (exec Cfg acts w)) /\ env Cfg (exec Cfg acts w) = env Cfg w.
  Proof.
    revert w; induction acts as [|act acts IH]; intros w Hw; simpl; [split; auto|].
    destruct (IH (watch_step Cfg w act)) as [IH1 IH2].
    - destruct act as [k| | | |c]; simpl; try exact Hw.
      + destruct (slot Cfg w); [exact Hw|]. destruct (backlog Cfg w); exact Hw.
      + destruct (busy Cfg w); [exact Hw|]. destruct (slot Cfg w) as [[]|]; simpl;
          try exact Hw. apply Forall_app; split; [exact Hw|constructor; auto].
    - assert (E : env Cfg (watch_step Cfg w act) = env Cfg w).
      { destruct act; simpl; try reflexivity.
        - destruct (slot Cfg w); [reflexivity|]. destruct (backlog Cfg w); reflexivity.
        - destruct (busy Cfg w); [reflexivity|]. destruct (slot Cfg w) as [[]|]; reflexivity. }
      rewrite E in IH1, IH2. split; assumption.
  Qed.

  (** C3 (as amended): in watch mode the channel holds at most one event,
      and no notification is dropped or merged: whatever the interleaving,
      the events received by the loop, the one in the channel and the ones
      the blocked watcher still holds are exactly the notified events in
      order, and the loop has made one run per received [Modify] event on
      top of the initial run. *)
Theorem watch_no_event_lost cfg acts :
    let w := exec Cfg acts (watch_start Cfg load_env cfg) in
    received Cfg w ++ opt_list (slot Cfg w) ++ backlog Cfg w = notified Cfg w /\
    length (runs Cfg w) = 1 + count_modify (received Cfg w).
  Proof.
    apply watch_inv_exec. unfold watch_inv; simpl. split; reflexivity.
  Qed.
End WatchProofs.

Section WatchCounterexamples.
  Import Watch.


  (** C3 fails: three [Modify] notifications arrive while a watch-triggered
      run is in flight; one waits in the channel, two are held by the
      blocked watcher, and after the in-flight run the loop makes three
      more runs, not one. *)
Lemma watch_burst_runs_three_times :
    let w0 := exec unit burst_setup (watch_start unit (fun _ => []) tt) in
    busy unit w0 = true /\ slot unit w0 = Some Modify /\
    backlog unit w0 = [Modify; Modify] /\
    length (runs unit (exec unit burst_drain w0)) - length (runs unit w0) = 3.
  Proof. vm_compute. repeat split; reflexivity. Qed.

  (** C4: the configuration is edited after watch mode started, the file
      is then modified: the run uses the table loaded at startup
      ("host" = "a") although reloading would give "host" = "b". *)
Theorem watch_reuses_startup_env :
    let cfg0 : Table := [("host", VString "a")] in
    let cfg1 : Table := [("host", VString "b")] in
    let w := exec Table [Edit Table cfg1; Notify Table Modify; Deliver Table; Recv Table]
               (watch_start Table (fun c => c) cfg0) in
    runs Table w = [cfg0; cfg0] /\ config Table w = cfg1 /\ cfg1 <> cfg0.
  Proof. vm_compute. split; [reflexivity|split; [reflexivity|discriminate]]. Qed.
End WatchCounterexamples.

Section CliProofs.
  Import Cli.

  (** C6: cancelling the request picker ([Select::prompt] returning
      [OperationCanceled]) makes [main] return that error through [?],
      bypassing the final cancellation filter, with or without [--repeat];
      a cancellation coming from the request itself is filtered. *)
Theorem picker_cancel_is_error :
    is_user_cancelation OperationCanceled = true /\
    main_model (mkArgs None false false false false false) (Ok tt)
      [mkRound (Err OperationCanceled) (Ok tt) (Ok tt)] = Exited (Err OperationCanceled) [] /\
    main_model (mkArgs None false false false false true) (Ok tt)
      [mkRound (Ok 0) (Ok tt) (Ok tt); mkRound (Err OperationCanceled) (Ok tt) (Ok tt)]
      = Exited (Err OperationCanceled) [] /\
    main_model (mkArgs None false false false false false) (Ok tt)
      [mkRound (Ok 0) (Ok tt) (Err OperationCanceled)] = Exited (Ok tt) [].
  Proof. repeat split. Qed.

  (** C10: [--watch] turns interactive mode off exactly like
      [--non-interactive], and without interactive mode every substitution
      failure of a resolution round is a hard failure, whatever the user
      would have answered. *)
Theorem watch_disables_prompting args :
    watch args = true ->
    interactive_mode args = false /\
    interactive_mode args =
      interactive_mode (mkArgs (name args) (batch args) (watch args) true
                          (select args) (repeat args)) /\
    (forall outcome answer e, outcome = Err e ->
       resolve_round (interactive_mode args) outcome answer = HardFailure e).
  Proof.
    intro Hw. unfold interactive_mode. rewrite Hw, orb_true_r. simpl.
    split; [reflexivity|split; [reflexivity|]].
    intros outcome answer e ->. destruct e; reflexivity.
  Qed.

Lemma watch_disables_prompting_witness :
    interactive_mode (mkArgs (Some "login.http") false true false false false) = false.
  Proof.
    exact (proj1 (watch_disables_prompting
             (mkArgs (Some "login.http") false true false false false) eq_refl)).
  Defined.
End CliProofs.

Section DiscoveryProofs.
  Import Discovery.


Lemma skipn_length_app (l1 l2 : list string) : skipn (length l1) (l1 ++ l2) = l2.
  Proof. induction l1; simpl; auto. Qed.




End DiscoveryProofs.

(** ** Further properties of the full-screen front-end *)

Section UiExtras.
  Import Ui.
  Context {Store Response Json : Type}.
  Variable X : Externals Store Response Json.
  Variable root_dir : string.

Lemma try_request_shape (a : @App Store Response) fp opts o :
  try_request X root_dir a fp opts = Ok o ->
  (exists b, o = Some (SendRequest fp b)) \/
  (exists k fp' opts' p, o = Some (AskForValue k fp' opts' p)) \/
  (exists m, o = Some (ShowError m)).
Proof.
  unfold try_request. intro H.
  destruct (load_env X (store a) root_dir fp opts) as [env|]; [|discriminate].
  destruct (read_to_string X fp) as [tpl|]; [|discriminate].
  injection H as <-.
  destruct (substitute (value_to_string X) tpl env) as [b|[]]; eauto 10.
Qed.

(** The intent loop of [App::run] ends after at most three dispatches,
    whatever the intent and whatever the collaborators return. *)
Theorem dispatch_loop_bounded (a : @App Store Response) i :
  snd (dispatch_loop X root_dir 3 a (Some i)) = None.
Proof.
  destruct i; simpl; unfold dispatch_step; simpl; try reflexivity.
  - destruct (try_request X root_dir a s l) as [o|e] eqn:E; simpl; [|reflexivity].
    apply try_request_shape in E as [[b ->]|[[k [fp [o' [p ->]]]]|[m ->]]]; simpl;
      [|destruct p|]; reflexivity.
  - destruct (find_environments X); reflexivity.
  - destruct (set_target X s); reflexivity.
  - destruct (edit_request X); reflexivity.
Qed.
(** Only the abort key in the [Idle] state asks to quit; in a popup or
    while a request runs the same key never does; and [should_quit] is
    only set by dispatching [Quit]: no other dispatch, no event, no
    collection of a finished request and no progress of a task sets it. *)
Theorem quit_only_from_idle (a a' : @App Store Response) ev i i' h :
  (handle_event X ev a = (a', Some Quit) ->
     state a = Idle /\ ev_press ev = true /\ ev_key ev = KAbort /\ a' = a) /\
  (dispatch_step X root_dir a i = (a', i') -> should_quit a = false ->
     should_quit a' = true -> i = Quit) /\
  (handle_event X ev a = (a', i') -> should_quit a' = should_quit a) /\
  (run_poll_check a = Ok a' -> should_quit a' = should_quit a) /\
  should_quit (poll_task X root_dir h a) = should_quit a.
Proof.
  split; [|split; [|split; [|split]]].
  - unfold handle_event. destruct (ev_press ev) eqn:Ep; simpl; [|congruence].
    destruct (state a) as [|fp k opts []|h0|items] eqn:Es.
    + destruct (match ev_select ev with Some (SAccept i0) => nth_error (reqs a) i0 | _ => None end);
        [congruence|]. destruct (ev_key ev); intro H; inversion H; subst; auto; discriminate.
    + destruct (ev_prompt ev) as [[]|]; congruence.
    + destruct (ev_select ev) as [[|n]|]; try congruence.
      destruct (nth_error l n); [|congruence]. destruct (select_value X v); congruence.
    + destruct (ev_key ev); congruence.
    + destruct (ev_select ev) as [[|n]|]; try congruence. destruct (nth_error items n); congruence.
  - unfold dispatch_step, dispatch. intros H Hq Hq'.
    destruct i; simpl in H; try (injection H as <- _; simpl in Hq'; congruence).
    + destruct (try_request X root_dir a s l); injection H as <- _; congruence.
    + destruct (find_environments X); injection H as <- _; congruence.
    + destruct (set_target X s); injection H as <- _; simpl in Hq'; congruence.
    + destruct (edit_request X); injection H as <- _; congruence.
  - unfold handle_event. destruct (ev_press ev); simpl; [|congruence].
    destruct (state a) as [|fp k opts []|h0|items].
    + destruct (match ev_select ev with Some (SAccept i0) => nth_error (reqs a) i0 | _ => None end);
        [congruence|]. destruct (ev_key ev); congruence.
    + destruct (ev_prompt ev) as [[]|]; intro H; inversion H; reflexivity.
    + destruct (ev_select ev) as [[|n]|]; try congruence.
      destruct (nth_error l n); [|congruence].
      destruct (select_value X v); intro H; inversion H; reflexivity.
    + destruct (ev_key ev); intro H; inversion H; reflexivity.
    + destruct (ev_select ev) as [[|n]|]; try congruence. destruct (nth_error items n); congruence.
  - unfold run_poll_check. intro H.
    destruct (state a); try (injection H as <-; reflexivity).
    destruct (lookup_task n (live a)) as [[| | |[u|m]]|];
      try (injection H as <-; reflexivity); discriminate.
  - unfold poll_task. destruct (lookup_task h (live a)); [|reflexivity].
    destruct (step_task X root_dir t (store a)) as [[t' s'] w]. reflexivity.
Qed.

(** Opening the target selector and accepting an environment whose
    [set_target] succeeds makes it the displayed target, back in [Idle]
    with the error line cleared; tasks and data are untouched. *)
Theorem target_selection_applies (a : @App Store Response) ev envs n s :
  find_environments X = Ok envs -> ev_press ev = true -> ev_select ev = Some (SAccept n) ->
  nth_error envs n = Some s -> set_target X s = Ok tt ->
  let a1 := fst (dispatch_loop X root_dir 3 a (Some SelectTargetI)) in
  state a1 = SelectTarget envs /\
  let '(a2, i2) := handle_event X ev a1 in
  let a3 := fst (dispatch_loop X root_dir 3 a2 i2) in
  state a3 = Idle /\ target a3 = s /\ error a3 = None /\
  live a3 = live a /\ store a3 = store a.
Proof.
  intros He Hp Hsel Hn Ht.
  assert (E1 : dispatch_loop X root_dir 3 a (Some SelectTargetI)
               = (set_state (set_error a None) (SelectTarget envs), None)).
  { simpl. unfold dispatch_step. simpl. rewrite He. reflexivity. }
  cbv zeta. rewrite E1. simpl. split; [reflexivity|].
  unfold handle_event. simpl. rewrite Hp, Hsel, Hn. simpl.
  unfold dispatch_step. simpl. rewrite Ht. simpl. repeat split; reflexivity.
Qed.

(** When [set_target] fails for the accepted environment, the target is
    unchanged, the selector stays open and the error is shown. *)
Theorem target_selection_failure_keeps_target (a : @App Store Response) ev envs n s e :
  find_environments X = Ok envs -> ev_press ev = true -> ev_select ev = Some (SAccept n) ->
  nth_error envs n = Some s -> set_target X s = Err e ->
  let a1 := fst (dispatch_loop X root_dir 3 a (Some SelectTargetI)) in
  let '(a2, i2) := handle_event X ev a1 in
  let a3 := fst (dispatch_loop X root_dir 3 a2 i2) in
  state a3 = SelectTarget envs /\ target a3 = target a /\ error a3 = Some e.
Proof.
  intros He Hp Hsel Hn Ht.
  assert (E1 : dispatch_loop X root_dir 3 a (Some SelectTargetI)
               = (set_state (set_error a None) (SelectTarget envs), None)).
  { simpl. unfold dispatch_step. simpl. rewrite He. reflexivity. }
  cbv zeta. rewrite E1. simpl.
  unfold handle_event. simpl. rewrite Hp, Hsel, Hn. simpl.
  unfold dispatch_step. simpl. rewrite Ht. simpl. repeat split; reflexivity.
Qed.

(** Accepting a table candidate without a [value] field adds no override:
    the selection popup stays open with the same overrides and
    "Replacement not found: key" is shown. *)
Theorem candidate_without_value_keeps_popup (a : @App Store Response) ev fp k opts vs n t :
  state a = PendingValue fp k opts (PSelect vs) ->
  ev_press ev = true -> ev_select ev = Some (SAccept n) ->
  nth_error vs n = Some (VTable t) -> get t "value" = None ->
  let '(a1, i1) := handle_event X ev a in
  let a2 := fst (dispatch_loop X root_dir 3 a1 i1) in
  state a2 = PendingValue fp k opts (PSelect vs) /\
  error a2 = Some ("Replacement not found: " ++ k)%string /\ live a2 = live a.
Proof.
  intros Hs Hp Hsel Hn Hv. unfold handle_event. rewrite Hp, Hs, Hsel, Hn. simpl.
  unfold select_value. rewrite Hv. simpl. rewrite Hs. repeat split; reflexivity.
Qed.

(** The error line changes only by [ShowError] (set) or [ChangeState]
    (cleared): no other intent and no event touches it. *)
Theorem status_error_persists (a a' : @App Store Response) i i' ev :
  (dispatch_step X root_dir a i = (a', i') ->
     (forall st, i <> ChangeState st) -> (forall m, i <> ShowError m) ->
     error a' = error a) /\
  (handle_event X ev a = (a', i') -> error a' = error a).
Proof.
  split.
  - unfold dispatch_step, dispatch. intros H Hc Hs.
    destruct i; simpl in H;
      try (injection H as <- _; reflexivity);
      try (exfalso; eapply Hc; reflexivity); try (exfalso; eapply Hs; reflexivity).
    + destruct (try_request X root_dir a s l); injection H as <- _; reflexivity.
    + destruct (find_environments X); injection H as <- _; reflexivity.
    + destruct (set_target X s); injection H as <- _; reflexivity.
    + destruct (edit_request X); injection H as <- _; reflexivity.
  - unfold handle_event. destruct (ev_press ev); simpl; [|congruence].
    destruct (state a) as [|fp k opts []|h|items].
    + destruct (match ev_select ev with Some (SAccept i0) => nth_error (reqs a) i0 | _ => None end);
        [congruence|]. destruct (ev_key ev); congruence.
    + destruct (ev_prompt ev) as [[]|]; intro H; inversion H; reflexivity.
    + destruct (ev_select ev) as [[|n]|]; try congruence.
      destruct (nth_error l n); [|congruence].
      destruct (select_value X v); intro H; inversion H; reflexivity.
    + destruct (ev_key ev); intro H; inversion H; reflexivity.
    + destruct (ev_select ev) as [[|n]|]; try congruence. destruct (nth_error items n); congruence.
Qed.
(** One resumption of [make_request] leaves the persisted data as it was,
    except when [update_data] succeeds, and then the request ends with
    [Ok] after its extraction block. *)
Theorem step_task_writes_only_on_success (t : @Task Response) (s s' : Store) t' w :
  step_task X root_dir t s = (t', s', w) ->
  s' = s \/ (t' = TDone (Ok tt) /\ w = true /\ exists vars, update_data X vars s = Ok s').
Proof.
  destruct t as [buf fp|buf fp|res fp|r]; simpl; intro H.
  - destruct (build_client X); injection H as _ <- _; left; reflexivity.
  - destruct (do_request X buf); [destruct (headers_to_str X r)|];
      injection H as _ <- _; left; reflexivity.
  - destruct (decode_json X res) as [json|]; [|injection H as _ <- _; left; reflexivity].
    destruct (to_string_pretty X json); [|injection H as _ <- _; left; reflexivity].
    destruct (load_env X s root_dir fp []) as [env|]; [|injection H as _ <- _; left; reflexivity].
    destruct (extract_variables X json env) as [vars|]; [|injection H as _ <- _; left; reflexivity].
    destruct (update_data X vars s) as [s1|] eqn:Eu; injection H as <- <- <-; [right|left; reflexivity].
    split; [reflexivity|split; [reflexivity|exists vars; exact Eu]].
  - injection H as _ <- _; left; reflexivity.
Qed.

Lemma lookup_update_task h t t' (l : list (nat * @Task Response)) :
  lookup_task h l = Some t -> lookup_task h (update_task h t' l) = Some t'.
Proof.
  induction l as [|[h' t0] l IH]; simpl; [discriminate|].
  destruct (Nat.eqb h h') eqn:E; simpl.
  - intros _. rewrite Nat.eqb_refl. reflexivity.
  - rewrite E. exact IH.
Qed.

(** A transport failure, or a response header that cannot be rendered,
    finishes the running request with that error, without extraction or
    data write, and the next check of [App::run] returns the error. *)
Theorem request_failure_ends_run (a : @App Store Response) h buf fp e :
  state a = RunningRequest h ->
  lookup_task h (live a) = Some (TAwaitTransport buf fp) ->
  (do_request X buf = Err e \/
   exists res, do_request X buf = Ok res /\ headers_to_str X res = Err e) ->
  run_poll_check (poll_task X root_dir h a) = Err e /\
  store (poll_task X root_dir h a) = store a /\
  extracted (poll_task X root_dir h a) = extracted a.
Proof.
  intros Hs Hl Hf.
  assert (Hst : step_task X root_dir (TAwaitTransport buf fp) (store a)
                = (TDone (Err e), store a, false)).
  { simpl. destruct Hf as [Hd|[res [Hd Hh]]]; rewrite Hd; [reflexivity|rewrite Hh; reflexivity]. }
  unfold poll_task. rewrite Hl, Hst. simpl. split; [|split; reflexivity].
  unfold run_poll_check. simpl. rewrite Hs.
  rewrite (lookup_update_task _ _ _ _ Hl). reflexivity.
Qed.

(** In a reachable configuration, collecting a request that finished
    with [Ok] returns the UI to [Idle] with no live task, keeping the error
    line and the data. *)
Theorem collect_returns_to_idle (a : @App Store Response) h u :
  reach X root_dir a None -> state a = RunningRequest h ->
  lookup_task h (live a) = Some (TDone (Ok u)) ->
  exists a', run_poll_check a = Ok a' /\
    state a' = Idle /\ live a' = [] /\ error a' = error a /\ store a' = store a.
Proof.
  intros Hr Hs Hl. pose proof (inv_live_reach X root_dir a None Hr) as I.
  simpl in I. rewrite Hs in I. simpl in I.
  unfold run_poll_check. rewrite Hs, Hl. eexists. split; [reflexivity|].
  simpl. repeat split; try reflexivity. apply remove_task_single, I.
Qed.

(** A request task that was aborted is never resumed: polling its handle
    changes nothing, so it never writes the data. *)
Theorem aborted_task_never_resumes (a : @App Store Response) i h t :
  reach X root_dir a i -> In (h, t) (aborted a) -> poll_task X root_dir h a = a.
Proof.
  intros Hr Hab. destruct (inv_ext_reach X root_dir a i Hr) as (_ & _ & _ & I4 & _).
  unfold poll_task. destruct (lookup_task h (live a)) as [t'|] eqn:E; [|reflexivity].
  exfalso. exact (I4 h t t' Hab (lookup_task_in _ _ _ E)).
Qed.
End UiExtras.

Section UiExtraWitnesses.
  Import Ui Demo.

Ltac reach_event R ev :=
    let R' := fresh "R" in
    pose proof (reach_event _ _ _ ev _ _ R eq_refl) as R'; clear R; rename R' into R.
Ltac reach_dispatch R :=
    let R' := fresh "R" in
    pose proof (reach_dispatch _ _ _ _ _ _ R eq_refl) as R'; clear R; rename R' into R.
Ltac reach_poll_task R h :=
    let R' := fresh "R" in
    pose proof (reach_task _ _ _ _ h R) as R'; clear R; rename R' into R.

Lemma target_selection_applies_witness :
  state (fst (dispatch_loop (demo true) "root" 3 demo_app (Some SelectTargetI)))
  = SelectTarget ["dev"; "prod"].
Proof.
  exact (proj1 (target_selection_applies (demo true) "root" demo_app (press_select 1)
           ["dev"; "prod"] 1 "prod" eq_refl eq_refl eq_refl eq_refl eq_refl)).
Defined.

Lemma target_selection_failure_keeps_target_witness :
  let a1 := fst (dispatch_loop demo_offline "root" 3 demo_app (Some SelectTargetI)) in
  let '(a2, i2) := handle_event demo_offline (press_select 1) a1 in
  let a3 := fst (dispatch_loop demo_offline "root" 3 a2 i2) in
  state a3 = SelectTarget ["dev"; "prod"] /\ target a3 = "dev" /\
  error a3 = Some "Permission denied".
Proof.
  exact (target_selection_failure_keeps_target demo_offline "root" demo_app (press_select 1)
           ["dev"; "prod"] 1 "prod" "Permission denied" eq_refl eq_refl eq_refl eq_refl eq_refl).
Defined.

Lemma candidate_without_value_keeps_popup_witness :
  let a := set_state demo_app
             (PendingValue "env.http" "env" [] (PSelect [VTable [("name", VString "staging")]])) in
  let '(a1, i1) := handle_event (demo true) (press_select 0) a in
  let a2 := fst (dispatch_loop (demo true) "root" 3 a1 i1) in
  state a2 = PendingValue "env.http" "env" [] (PSelect [VTable [("name", VString "staging")]]) /\
  error a2 = Some "Replacement not found: env" /\ live a2 = live a.
Proof.
  exact (candidate_without_value_keeps_popup (demo true) "root"
           (set_state demo_app
              (PendingValue "env.http" "env" [] (PSelect [VTable [("name", VString "staging")]])))
           (press_select 0) "env.http" "env" [] [VTable [("name", VString "staging")]] 0
           [("name", VString "staging")] eq_refl eq_refl eq_refl eq_refl eq_refl).
Defined.

Lemma step_task_writes_only_on_success_witness :
  step_task (demo true) "root" (TAwaitJson (Some (VTable [])) "auth.http") []
    = (TDone (Ok tt), [("token", VString "abc123")], true) /\
  exists vars, update_data (demo true) vars [] = Ok [("token", VString "abc123")].
Proof.
  split; [reflexivity|].
  destruct (step_task_writes_only_on_success (demo true) "root"
              (TAwaitJson (Some (VTable [])) "auth.http") [] [("token", VString "abc123")]
              (TDone (Ok tt)) true eq_refl) as [H|(_ & _ & H)];
    [discriminate H|exact H].
Defined.

Lemma request_failure_ends_run_witness :
  let a := mkApp (RunningRequest 0) None false "dev" ["env.http"]
             [(0, TAwaitTransport "GET https://dev" "env.http")] 1 [] [] [] in
  run_poll_check (poll_task demo_offline "root" 0 a) = Err "Connection refused" /\
  store (poll_task demo_offline "root" 0 a) = store a /\
  extracted (poll_task demo_offline "root" 0 a) = extracted a.
Proof.
  exact (request_failure_ends_run demo_offline "root"
           (mkApp (RunningRequest 0) None false "dev" ["env.http"]
              [(0, TAwaitTransport "GET https://dev" "env.http")] 1 [] [] [])
           0 "GET https://dev" "env.http" "Connection refused" eq_refl eq_refl
           (or_introl eq_refl)).
Defined.

Lemma collect_returns_to_idle_witness :
  exists a, reach (demo true) "root" a None /\
    exists a', run_poll_check a = Ok a' /\ state a' = Idle /\ live a' = [] /\
               error a' = error a /\ store a' = store a.
Proof.
  pose proof (reach_init (demo true) "root" "dev" ["env.http"; "auth.http"] []) as R.
  reach_event R (press_select 0). reach_dispatch R. reach_dispatch R. reach_dispatch R.
  reach_event R (press_select 1). reach_dispatch R. reach_dispatch R. reach_dispatch R.
  reach_poll_task R 0. reach_poll_task R 0. reach_poll_task R 0.
  eexists; split; [exact R|].
  exact (collect_returns_to_idle (demo true) "root" _ 0 tt R eq_refl eq_refl).
Defined.

Lemma aborted_task_never_resumes_witness :
  exists a, reach (demo true) "root" a None /\
    aborted a = [(0, TStart "https://dev" "env.http")] /\
    poll_task (demo true) "root" 0 a = a.
Proof.
  pose proof (reach_init (demo true) "root" "dev" ["env.http"; "auth.http"] []) as R.
  reach_event R (press_select 0). reach_dispatch R. reach_dispatch R. reach_dispatch R.
  reach_event R (press_select 1). reach_dispatch R. reach_dispatch R. reach_dispatch R.
  reach_event R (press_key KAbort). reach_dispatch R.
  eexists; split; [exact R|]. split; [reflexivity|].
  exact (aborted_task_never_resumes (demo true) "root" _ None 0
           (TStart "https://dev" "env.http") R (or_introl eq_refl)).
Defined.
End UiExtraWitnesses.

(** ** The request pane of [make_request] *)

Section HeaderProofs.
  Import Ui.

Lemma lines_from_line racc (l : list ascii) rest :
  ~ In "010"%char l ->
  lines_from racc (string_of_list_ascii l ++ String "010" rest)
  = string_of_list_ascii (rev (strip_cr (rev l ++ racc))) :: lines_from [] rest.
Proof.
  revert racc; induction l as [|c l IH]; intros racc Hn; simpl; [reflexivity|].
  destruct (Ascii.eqb c "010") eqn:E.
  - apply Ascii.eqb_eq in E. subst. exfalso. apply Hn. left. reflexivity.
  - rewrite IH by (intro; apply Hn; right; assumption). rewrite <- app_assoc. reflexivity.
Qed.

Lemma lines_from_no_nl s racc :
  ~ In "010"%char racc -> Forall (fun x => ~ In "010"%char (list_ascii_of_string x)) (lines_from racc s).
Proof.
  revert racc; induction s as [|c s IH]; intros racc Hn; simpl.
  - destruct racc; constructor; [|constructor].
    rewrite list_ascii_of_string_of_list_ascii, <- in_rev. exact Hn.
  - destruct (Ascii.eqb c "010") eqn:E.
    + constructor; [|apply IH; intros []].
      rewrite list_ascii_of_string_of_list_ascii, <- in_rev.
      destruct racc as [|d r]; simpl; [exact Hn|].
      destruct (Ascii.eqb d "013"); [intro; apply Hn; right; assumption|exact Hn].
    + apply IH. intros [Hc|H]; [subst c; simpl in E; discriminate E|exact (Hn H)].
Qed.

Lemma header_lines (ls : list string) :
  Forall (fun x => ~ In "010"%char (list_ascii_of_string x)) ls ->
  forallb (fun line => negb (ends_cr line)) ls = true ->
  lines_from [] (fold_right (fun line acc => "> " ++ line ++ String "010" acc)%string
                   (String "010" "") ls)
  = map (fun line => ("> " ++ line)%string) ls ++ [""].
Proof.
  induction ls as [|line ls IH]; simpl; intros Hnl Hc; [reflexivity|].
  apply andb_prop in Hc as [Hl Hc]. inversion Hnl as [|? ? Hn Hnl']; subst.
  rewrite <- (string_of_list_ascii_of_string line) at 1.
  rewrite lines_from_line by exact Hn. f_equal; [|exact (IH Hnl' Hc)].
  unfold ends_cr in Hl.
  destruct (rev (list_ascii_of_string line)) as [|d r] eqn:Er.
  - simpl. rewrite <- (string_of_list_ascii_of_string line),
      <- (rev_involutive (list_ascii_of_string line)), Er. reflexivity.
  - simpl. simpl in Hl. destruct (Ascii.eqb d "013"); [discriminate|].
    change (d :: r ++ [" "%char; ">"%char]) with ((d :: r) ++ [" "%char; ">"%char]).
    rewrite rev_app_distr, <- Er, rev_involutive. simpl. rewrite string_of_list_ascii_of_string.
    reflexivity.
Qed.

(** The request pane lists the prepared request line by line, each line
    behind "> ", and ends with one empty line (for requests whose lines do
    not end in a carriage return once [str::lines] has split them). *)
Theorem request_header_lines buf :
  forallb (fun line => negb (ends_cr line)) (lines buf) = true ->
  lines (request_header buf) = map (fun line => ("> " ++ line)%string) (lines buf) ++ [""].
Proof.
  intro Hc. apply header_lines; [apply lines_from_no_nl; intros []|exact Hc].
Qed.

Lemma request_header_lines_witness :
  lines (request_header (String "G" (String "013" (String "010" (String "H" (String "010" ""))))))
  = ["> G"; "> H"; ""].
Proof.
  exact (request_header_lines (String "G" (String "013" (String "010" (String "H" (String "010" ""))))) eq_refl).
Defined.
End HeaderProofs.

(** ** Further properties of request discovery *)

Section DiscoveryExtras.
  Import Discovery.

Lemma walk_rel base d e :
  walk base d e = map (fun pr => mkDirEntry (base ++ fst pr) (d + length (fst pr)) (snd pr)) (rel_walk e).
Proof.
  revert base d; induction e as [n|n cs IH] using Entry_ind'; intros base d; simpl.
  - rewrite app_nil_r, Nat.add_0_r. reflexivity.
  - rewrite app_nil_r, Nat.add_0_r. f_equal.
    induction IH as [|c cs Hc Hcs IHcs]; simpl; [reflexivity|].
    rewrite map_app, IHcs, Hc, map_map. f_equal. apply map_ext. intros [p x]; simpl.
    rewrite <- app_assoc. f_equal. lia.
Qed.

Lemma find_available_requests_rel cwd e :
  find_available_requests cwd e
  = map fst (filter (fun pr => ends_with (snd pr) ".http") (rel_walk e)).
Proof.
  unfold find_available_requests. rewrite walk_rel.
  induction (rel_walk e) as [|[p x] l IH]; simpl in *; [reflexivity|].
  destruct (ends_with x ".http"); simpl; rewrite IH; [|reflexivity].
  rewrite length_app, Nat.add_sub, skipn_length_app. reflexivity.
Qed.

(** The relative paths the picker lists depend only on the tree below the
    start directory, not on where that directory is. *)
Theorem find_available_requests_location_independent cwd cwd' e :
  find_available_requests cwd e = find_available_requests cwd' e.
Proof. rewrite !find_available_requests_rel. reflexivity. Qed.

(** Listing a directory gives the directory itself (empty path) when its
    name ends with ".http", then, child by child in order, the listing of
    each child with the child's name in front. *)
Theorem find_available_requests_dir cwd n cs :
  find_available_requests cwd (Dir n cs)
  = (if ends_with n ".http" then [[]] else []) ++
    flat_map (fun c => map (cons (entry_name c)) (find_available_requests (cwd ++ [entry_name c]) c)) cs.
Proof.
  rewrite find_available_requests_rel. simpl.
  destruct (ends_with n ".http"); simpl; f_equal;
  (induction cs as [|c cs IH]; simpl; [reflexivity|];
   rewrite filter_app, map_app, IH, find_available_requests_rel; f_equal;
   induction (rel_walk c) as [|[p x] l IHl]; simpl; [reflexivity|];
   destruct (ends_with x ".http"); simpl; rewrite IHl; reflexivity).
Qed.
End DiscoveryExtras.

(** ** Further properties of the picker loop *)

Section CliExtras.
  Import Cli.

(** With [--repeat], as long as the picker returns a selection and
    [load_env] succeeds, the loop keeps going, and it logs exactly the
    request errors that are not user cancellations, in order. *)
Theorem picker_repeat_logs_failures rounds logged :
  Forall (fun r => (exists i, picked r = Ok i) /\ env_loaded r = Ok tt) rounds ->
  picker_loop true rounds logged
  = LoopPending (logged ++ filter (fun e => negb (is_user_cancelation e)) (request_errors rounds)).
Proof.
  revert logged; induction rounds as [|[sel envr res] rounds IH]; intros logged H; simpl.
  - rewrite app_nil_r. reflexivity.
  - inversion H as [|? ? [[i Hi] He] Hr]; subst. simpl in Hi, He. subst sel envr.
    destruct res as [u|e]; simpl; rewrite IH by exact Hr; [reflexivity|].
    destruct (is_user_cancelation e); simpl; [reflexivity|]. rewrite <- app_assoc. reflexivity.
Qed.

Lemma picker_repeat_logs_failures_witness :
  picker_loop true [mkRound (Ok 0) (Ok tt) (Err (OtherError "timeout"));
                    mkRound (Ok 1) (Ok tt) (Err OperationCanceled);
                    mkRound (Ok 0) (Ok tt) (Ok tt)] []
  = LoopPending [OtherError "timeout"].
Proof.
  apply (picker_repeat_logs_failures
           [mkRound (Ok 0) (Ok tt) (Err (OtherError "timeout"));
            mkRound (Ok 1) (Ok tt) (Err OperationCanceled);
            mkRound (Ok 0) (Ok tt) (Ok tt)] []).
  repeat apply Forall_cons; try apply Forall_nil; (split; [eexists; reflexivity|reflexivity]).
Defined.
End CliExtras.
